(** * balda: the native addon [addNumbers] and its module initialisers

    Shallow embedding of [src/native/test.cpp] and [src/native/binding.cpp].

    The two C++ files only talk to the host through Node-API.  The host is
    modelled as an explicit environment state ([napi_env]) holding the
    JavaScript heap and the pending exception, and every Node-API entry
    point used by the sources is a computation in a small state monad over
    that environment.  Out-parameters ([int32_t *result], [napi_value
    *result], the [args] buffer) are modelled as "cell before / cell after":
    the call receives the current content of the cell and returns the content
    the cell has when the call returns, so a call that fails without writing
    leaves the previous content in place, as in C.

    Two points of the C++ abstract machine are left undefined by the
    language: signed overflow of [a + b], and reading an automatic variable
    that was never written.  The embedding follows the compiled code on the
    two's-complement targets Node.js runs on: the addition wraps modulo
    2^32, and a local that was not written holds whatever its stack slot
    held on entry, which the model passes in explicitly as the function's
    frame.

    Node-API itself is not part of the repository; the entry points in
    [NodeApi] follow its reference documentation: which status each call
    reports, and what it writes when it succeeds.  A property store made
    through it is an ordinary JavaScript store, so objects carry what
    decides such a store: their own data and accessor properties, their
    prototype, and whether they are extensible. *)

From Stdlib Require Import ZArith QArith_base Lia.
From stdpp Require Import base option list gmap strings.

Local Open Scope Z_scope.

(** ** 32-bit signed integers *)

Module Int32.

Definition min_signed : Z := - 2 ^ 31.
Definition max_signed : Z := 2 ^ 31 - 1.
Definition modulus : Z := 2 ^ 32.

Definition in_range (z : Z) : Prop := min_signed <= z <= max_signed.

(** The value of an [int32_t] holding the low 32 bits of [z]. *)
Definition wrap (z : Z) : Z := (z - min_signed) mod modulus + min_signed.

(** [a + b] on [int32_t], as the target's 32-bit add instruction. *)
Definition add (a b : Z) : Z := wrap (a + b).

End Int32.

(** ** JavaScript values as seen through Node-API *)

(** A JavaScript number is a double: finite (a rational here), NaN or an
    infinity. *)
Inductive js_number : Type :=
  | NumFinite (q : Q)
  | NumNaN
  | NumInfinity (negative : bool).

Definition loc := positive.

Inductive js_value : Type :=
  | JSUndefined
  | JSNull
  | JSBoolean (b : bool)
  | JSNumber (n : js_number)
  | JSString (s : string)
  | JSObject (l : loc).

(** A [napi_value] is a handle; [None] is [nullptr]. *)
Definition napi_value : Type := option js_value.
Definition nullptr : napi_value := None.

(** The number a 32-bit integer boxes to. *)
Definition js_int32 (z : Z) : js_value := JSNumber (NumFinite (inject_Z z)).

(** ECMAScript ToInt32 on a number: non-finite numbers give 0, finite ones
    are truncated towards zero and reduced to their low 32 bits. *)
Definition ToInt32 (n : js_number) : Z :=
  match n with
  | NumFinite q => Int32.wrap (Z.quot (Qnum q) (Z.pos (Qden q)))
  | NumNaN => 0
  | NumInfinity _ => 0
  end.

Inductive napi_status : Type :=
  | napi_ok
  | napi_invalid_arg
  | napi_object_expected
  | napi_string_expected
  | napi_name_expected
  | napi_function_expected
  | napi_number_expected
  | napi_boolean_expected
  | napi_array_expected
  | napi_generic_failure
  | napi_pending_exception.

Global Instance napi_status_eq_dec : EqDecision napi_status.
Proof. solve_decision. Defined.

(** Native functions that can be wrapped into a JavaScript function object:
    the function pointers passed to [napi_create_function]. *)
Inductive napi_callback : Type :=
  | addNumbers_ptr.

(** A JavaScript [Error] as [napi_throw_error] builds it. *)
Record js_error : Type := mk_js_error {
  error_code : option string;
  error_message : string;
}.

(** What can be pending as an exception: an [Error] thrown through
    Node-API, a [TypeError] raised by the engine, or any value thrown by
    user code. *)
Inductive js_exception : Type :=
  | ErrorObject (e : js_error)
  | TypeErrorObject (message : string)
  | ThrownValue (v : js_value).

(** The user code behind a setter, by what it does to the store that calls
    it: it returns, or it throws.  What else that code does to the heap is
    not represented. *)
Inductive js_setter : Type :=
  | setter_returns
  | setter_throws (e : js_exception).

(** A property is a data property, writable or read-only, or an accessor
    property with or without a setter. *)
Inductive js_property : Type :=
  | DataProperty (value : js_value) (writable : bool)
  | AccessorProperty (setter : option js_setter).

(** An object: its own properties, its prototype, whether properties can
    still be added to it (a frozen, sealed or non-extensible object has
    [extensible = false]), and, for a function object made by
    [napi_create_function], the native code and data behind it.  Proxies
    are not represented. *)
Record js_object : Type := mk_js_object {
  properties : gmap string js_property;
  prototype : option loc;
  extensible : bool;
  native_code : option napi_callback;
  native_data : option Z;
}.

(** The environment behind a [napi_env] handle.  [can_create_function]
    stands for the engine being able to instantiate a new native function;
    when it cannot, [napi_create_function] reports [napi_generic_failure]. *)
Record napi_env : Type := mk_napi_env {
  heap : gmap loc js_object;
  last_exception : option js_exception;
  can_create_function : bool;
}.

(** The check every entry point that may run JavaScript starts with. *)
Definition exception_pending (env : napi_env) : bool :=
  match last_exception env with
  | Some _ => true
  | None => false
  end.

(** ** Property stores *)

(** The first property called [name] found from [start] along the
    prototype chain, looking at most [depth] objects far. *)
Fixpoint lookup_chain (depth : nat) (h : gmap loc js_object)
    (start : option loc) (name : string) : option js_property :=
  match depth, start with
  | S depth', Some l =>
      match h !! l with
      | Some o =>
          match properties o !! name with
          | Some p => Some p
          | None => lookup_chain depth' h (prototype o) name
          end
      | None => None
      end
  | _, _ => None
  end.

(** What a store [o.name = v] made without strict-mode errors comes to. *)
Inductive store_outcome : Type :=
  | store_lands
  | store_ignored
  | store_calls (s : js_setter).

(** ECMAScript OrdinarySet: an own writable data property is overwritten;
    an own read-only property or an accessor without setter swallows the
    store; a setter is called; with no own property the same is decided by
    the first property of that name on the prototype chain, and where that
    allows the store a new own property is added if the object is
    extensible. *)
Definition store_decision (h : gmap loc js_object) (o : js_object)
    (name : string) : store_outcome :=
  match properties o !! name with
  | Some (DataProperty _ true) => store_lands
  | Some (DataProperty _ false) => store_ignored
  | Some (AccessorProperty (Some s)) => store_calls s
  | Some (AccessorProperty None) => store_ignored
  | None =>
      match lookup_chain (size h) h (prototype o) name with
      | Some (DataProperty _ false) => store_ignored
      | Some (AccessorProperty (Some s)) => store_calls s
      | Some (AccessorProperty None) => store_ignored
      | Some (DataProperty _ true) | None =>
          if extensible o then store_lands else store_ignored
      end
  end.

(** [o] after a store of [v] under [name] has landed. *)
Definition with_property (o : js_object) (name : string) (v : js_value)
  : js_object :=
  mk_js_object (<[name := DataProperty v true]> (properties o))
               (prototype o) (extensible o) (native_code o) (native_data o).

(** The exception the engine raises when asked to treat [undefined] or
    [null] as an object. *)
Definition not_an_object : js_exception :=
  TypeErrorObject "Cannot convert undefined or null to object".

(** What the host passes to a native callback. *)
Record napi_callback_info : Type := mk_callback_info {
  cb_args : list js_value;
  cb_this : js_value;
}.

(** ** Computations against the environment *)

Definition napi (A : Type) : Type := napi_env -> A * napi_env.

Global Instance napi_ret : MRet napi := fun A (x : A) env => (x, env).
Global Instance napi_bind : MBind napi := fun A B (f : A -> napi B) (m : napi A) env =>
  let '(x, env') := m env in f x env'.

(** ** The Node-API entry points used by the sources *)

Module NodeApi.

(** [napi_get_cb_info(env, info, &argc, argv, nullptr, nullptr)]: the
    first [argc] slots of [argv] receive the call's arguments, padded with
    [undefined] when the call has fewer; [argc] then receives the actual
    argument count. *)
Definition napi_get_cb_info (info : napi_callback_info)
    (argc : nat) (argv : list napi_value)
  : napi (napi_status * nat * list napi_value) :=
  let copied :=
    take argc (Some <$> (cb_args info ++ replicate argc JSUndefined)) in
  mret (napi_ok, length (cb_args info), copied ++ drop argc argv).

(** [napi_get_value_int32(env, value, &result)]: no check on a pending
    exception; a value that is not a number is refused without writing
    [result]. *)
Definition napi_get_value_int32 (value : napi_value) (result : Z)
  : napi (napi_status * Z) :=
  match value with
  | None => mret (napi_invalid_arg, result)
  | Some (JSNumber n) => mret (napi_ok, ToInt32 n)
  | Some _ => mret (napi_number_expected, result)
  end.

(** [napi_create_int32(env, value, &result)]. *)
Definition napi_create_int32 (value : Z) (result : napi_value)
  : napi (napi_status * napi_value) :=
  mret (napi_ok, Some (js_int32 value)).

(** [napi_create_function(env, utf8name, length, cb, data, &result)]:
    refused while an exception is pending; otherwise a new function object
    wrapping [cb] is allocated and its handle written to [result]. *)
Definition napi_create_function (utf8name : option string) (length : nat)
    (cb : napi_callback) (data : option Z) (result : napi_value)
  : napi (napi_status * napi_value) := fun env =>
  if exception_pending env then (napi_pending_exception, result, env)
  else if negb (can_create_function env) then
    (napi_generic_failure, result, env)
  else
    let l := fresh (dom (heap env)) in
    let fn := mk_js_object ∅ None true (Some cb) data in
    (napi_ok, Some (JSObject l),
     mk_napi_env (<[l := fn]> (heap env)) (last_exception env)
                 (can_create_function env)).

(** [napi_set_named_property(env, object, utf8name, value)]: refused
    while an exception is pending and on a null handle.  [undefined] and
    [null] have no object to convert to: the conversion raises a
    [TypeError], which stays pending.  On an object the store is an
    ordinary JavaScript store made without strict-mode errors: when the
    object swallows it (a non-extensible object, a read-only property, an
    accessor without setter) or a setter takes it, the call still reports
    [napi_ok]; when the setter throws, the call fails and the thrown value
    stays pending.  The other primitives convert to a temporary wrapper,
    so the store succeeds and is lost. *)
Definition napi_set_named_property (object : napi_value)
    (utf8name : string) (value : napi_value)
  : napi napi_status := fun env =>
  if exception_pending env then (napi_pending_exception, env)
  else
    match value, object with
    | None, _ => (napi_invalid_arg, env)
    | Some _, None => (napi_invalid_arg, env)
    | Some _, Some JSUndefined | Some _, Some JSNull =>
        (napi_object_expected,
         mk_napi_env (heap env) (Some not_an_object)
                     (can_create_function env))
    | Some v, Some (JSObject l) =>
        match heap env !! l with
        | None => (napi_invalid_arg, env)
        | Some o =>
            match store_decision (heap env) o utf8name with
            | store_lands =>
                (napi_ok,
                 mk_napi_env (<[l := with_property o utf8name v]> (heap env))
                             (last_exception env) (can_create_function env))
            | store_ignored => (napi_ok, env)
            | store_calls setter_returns => (napi_ok, env)
            | store_calls (setter_throws e) =>
                (napi_generic_failure,
                 mk_napi_env (heap env) (Some e) (can_create_function env))
            end
        end
    | Some _, Some _ => (napi_ok, env)
    end.

(** [napi_throw_error(env, code, msg)]: refused while an exception is
    already pending; otherwise an [Error] carrying [msg] becomes the
    pending exception. *)
Definition napi_throw_error (code : option string) (msg : string)
  : napi napi_status := fun env =>
  if exception_pending env then (napi_pending_exception, env)
  else
    (napi_ok,
     mk_napi_env (heap env) (Some (ErrorObject (mk_js_error code msg)))
                 (can_create_function env)).

End NodeApi.
Import NodeApi.

(** ** src/native/test.cpp *)

(** The automatic variables of [addNumbers] as they are on entry. *)
Record addNumbers_frame : Type := mk_addNumbers_frame {
  slot_args : napi_value * napi_value;
  slot_a : Z;
  slot_b : Z;
  slot_result_value : napi_value;
}.

Definition addNumbers (fr : addNumbers_frame) (info : napi_callback_info)
  : napi napi_value :=
  let argc := 2%nat in
  let args := [fst (slot_args fr); snd (slot_args fr)] in
  '(_, argc, args) ← napi_get_cb_info info argc args;
  let a := slot_a fr in
  let b := slot_b fr in
  '(_, a) ← napi_get_value_int32 (args !!! 0%nat) a;
  '(_, b) ← napi_get_value_int32 (args !!! 1%nat) b;
  let result := Int32.add a b in
  let result_value := slot_result_value fr in
  '(_, result_value) ← napi_create_int32 result result_value;
  mret result_value.

(** [init], the registration routine of test.cpp.  [add_numbers_fn] is the
    content of that local's stack slot on entry. *)
Definition init (add_numbers_fn : napi_value) (exports : napi_value)
  : napi napi_value :=
  '(_, add_numbers_fn) ←
    napi_create_function None 0 addNumbers_ptr None add_numbers_fn;
  _ ← napi_set_named_property exports "addNumbers" add_numbers_fn;
  mret exports.

(** ** src/native/binding.cpp *)

Definition Init (add_numbers_fn : napi_value) (exports : napi_value)
  : napi napi_value :=
  '(status, add_numbers_fn) ←
    napi_create_function None 0 addNumbers_ptr None add_numbers_fn;
  if decide (status ≠ napi_ok) then
    _ ← napi_throw_error None "Failed to create addNumbers function";
    mret nullptr
  else
    status ← napi_set_named_property exports "addNumbers" add_numbers_fn;
    if decide (status ≠ napi_ok) then
      _ ← napi_throw_error None "Failed to set addNumbers property";
      mret nullptr
    else
      mret exports.

(** ** The host calling a function object *)

Definition run_callback (cb : napi_callback)
  : addNumbers_frame -> napi_callback_info -> napi napi_value :=
  match cb with
  | addNumbers_ptr => addNumbers
  end.

(** [object.name(args...)] from the host's side, for a data property, own
    or inherited, holding a native function. *)
Definition call_method (fr : addNumbers_frame) (object : js_value)
    (name : string) (args : list js_value) : napi (option napi_value) :=
  fun env =>
  match object with
  | JSObject l =>
      match lookup_chain (S (size (heap env))) (heap env) (Some l) name with
      | Some (DataProperty (JSObject f) _) =>
          match heap env !! f ≫= native_code with
          | Some cb =>
              let '(r, env') :=
                run_callback cb fr (mk_callback_info args object) env in
              (Some r, env')
          | None => (None, env)
          end
      | _ => (None, env)
      end
  | _ => (None, env)
  end.

(** ** Vocabulary of the statements *)

(** What [napi_get_value_int32] leaves in an operand whose slot held
    [stale]: the converted number, or the slot's previous content. *)
Definition operand (arg : option js_value) (stale : Z) : Z :=
  match arg with
  | Some (JSNumber n) => ToInt32 n
  | _ => stale
  end.

(** A call of [addNumbers] whose arguments are exactly the integers [zs]. *)
Definition call_with (zs : list Z) (this : js_value) : napi_callback_info :=
  mk_callback_info (js_int32 <$> zs) this.

(** The two Node-API calls of a registration, run in order from [env]: the
    creation of the callable, and its attachment to [exports] under the name
    [addNumbers]. *)
Definition creation (slot : napi_value)
  : napi (napi_status * napi_value) :=
  napi_create_function None 0 addNumbers_ptr None slot.

Definition creation_status (env : napi_env) : napi_status :=
  (creation nullptr env).1.1.

Definition attachment_status (exports : napi_value) (env : napi_env)
  : napi_status :=
  let '(_, fn, env1) := creation nullptr env in
  (napi_set_named_property exports "addNumbers" fn env1).1.

(** The exception the attachment of a registration leaves pending. *)
Definition attachment_exception (exports : napi_value) (env : napi_env)
  : option js_exception :=
  let '(_, fn, env1) := creation nullptr env in
  last_exception (napi_set_named_property exports "addNumbers" fn env1).2.

(** The function object [napi_create_function] builds for [addNumbers]
    (its own properties and prototype are not represented). *)
Definition addNumbers_function : js_object :=
  mk_js_object ∅ None true (Some addNumbers_ptr) None.

(** A property that stops a store of its name. *)
Definition blocks_store (p : option js_property) : bool :=
  match p with
  | Some (DataProperty _ false) => true
  | Some (AccessorProperty _) => true
  | _ => false
  end.

(** An object on which a store of [name] lands: it is extensible, and
    neither the object itself nor its prototype chain, however far it is
    followed, shows [name] as a read-only or accessor property. *)
Definition accepts_store (h : gmap loc js_object) (o : js_object)
    (name : string) : Prop :=
  extensible o = true /\
  blocks_store (properties o !! name) = false /\
  forall depth, blocks_store (lookup_chain depth h (prototype o) name) = false.

(** The environment a registration that went through leaves: the function
    object at the first free location, and [addNumbers] stored on the
    exports object [o] at [l]. *)
Definition registered (l : loc) (o : js_object) (env : napi_env) : napi_env :=
  let f := fresh (dom (heap env)) in
  mk_napi_env
    (<[l := with_property o "addNumbers" (JSObject f)]>
       (<[f := addNumbers_function]> (heap env)))
    None true.

(** The three ways a creation ends. *)
Inductive creation_outcome (slot : napi_value) (env : napi_env)
  : napi_status * napi_value * napi_env -> Prop :=
  | creation_pending :
      is_Some (last_exception env) ->
      creation_outcome slot env (napi_pending_exception, slot, env)
  | creation_refused :
      last_exception env = None -> can_create_function env = false ->
      creation_outcome slot env (napi_generic_failure, slot, env)
  | creation_done f :
      last_exception env = None -> can_create_function env = true ->
      f = fresh (dom (heap env)) -> heap env !! f = None ->
      creation_outcome slot env
        (napi_ok, Some (JSObject f),
         mk_napi_env (<[f := addNumbers_function]> (heap env)) None true).

(** [t] is [q] with its fraction dropped: the integer next to [q] on the
    side of zero. *)
Definition truncates_to (q : Q) (t : Z) : Prop :=
  ((0 <= q)%Q -> (inject_Z t <= q)%Q /\ (q < inject_Z (t + 1))%Q) /\
  ((q <= 0)%Q -> (inject_Z (t - 1) < q)%Q /\ (q <= inject_Z t)%Q).

(** The values [napi_get_value_int32] accepts. *)
Definition is_number (v : js_value) : bool :=
  match v with
  | JSNumber _ => true
  | _ => false
  end.

(** ** Sample states *)

(** The environment of a module load: no exception pending, and a heap
    holding the empty exports object the loader passes in and the object
    it inherits from. *)
Definition module_exports : loc := 1%positive.
Definition object_prototype : loc := 2%positive.

Definition plain_exports : js_object :=
  mk_js_object ∅ (Some object_prototype) true None None.

Definition frozen_exports : js_object :=
  mk_js_object ∅ (Some object_prototype) false None None.

Definition loader_env : napi_env :=
  mk_napi_env
    {[ module_exports := plain_exports;
       object_prototype := mk_js_object ∅ None true None None ]}
    None true.

(** The same environment with the exports object frozen. *)
Definition frozen_env : napi_env :=
  mk_napi_env (<[module_exports := frozen_exports]> (heap loader_env))
              None true.

(** The same environment with the engine unable to create functions. *)
Definition exhausted_env : napi_env :=
  mk_napi_env (heap loader_env) None false.

(** The same environment entered while an earlier exception is pending. *)
Definition throwing_env : napi_env :=
  mk_napi_env (heap loader_env)
              (Some (ErrorObject (mk_js_error None "earlier"))) true.

(** A stack frame holding zeros and null handles. *)
Definition zero_frame : addNumbers_frame :=
  mk_addNumbers_frame (nullptr, nullptr) 0 0 nullptr.

(** A stack frame holding leftovers of earlier calls. *)
Definition stale_frame : addNumbers_frame :=
  mk_addNumbers_frame (Some JSNull, nullptr) 1234 (-77) (Some JSUndefined).

(** * Properties *)

(** ** 32-bit arithmetic *)

Module Int32Facts.
Import Int32.

Lemma wrap_in_range z : in_range (wrap z).
Proof.
  unfold in_range, wrap, min_signed, max_signed, modulus.
  pose proof (Z.mod_pos_bound (z - - 2 ^ 31) (2 ^ 32)). lia.
Qed.

Lemma wrap_id z : in_range z -> wrap z = z.
Proof.
  unfold in_range, wrap, min_signed, max_signed, modulus. intros Hz.
  rewrite Z.mod_small; lia.
Qed.

Lemma wrap_congruent z : wrap z mod modulus = z mod modulus.
Proof.
  unfold wrap, modulus, min_signed.
  rewrite Zplus_mod_idemp_l. f_equal. lia.
Qed.

Lemma wrap_above z :
  max_signed < z <= max_signed + modulus -> wrap z = z - modulus.
Proof.
  unfold wrap, min_signed, max_signed, modulus. intros Hz.
  replace (z - - 2 ^ 31) with ((z - 2 ^ 31) + 1 * 2 ^ 32) by lia.
  rewrite Z.mod_add by lia. rewrite Z.mod_small; lia.
Qed.

Lemma wrap_below z :
  min_signed - modulus <= z < min_signed -> wrap z = z + modulus.
Proof.
  unfold wrap, min_signed, max_signed, modulus. intros Hz.
  replace (z - - 2 ^ 31) with ((z + 2 ^ 31 + 2 ^ 32) + (-1) * 2 ^ 32) by lia.
  rewrite Z.mod_add by lia. rewrite Z.mod_small; lia.
Qed.

(** [wrap] is the two's-complement reading of the low 32 bits: bit 31 is
    the sign bit. *)
Lemma wrap_twos_complement z :
  wrap z = Z.land z (Z.ones 32) - (if Z.testbit z 31 then 2 ^ 32 else 0).
Proof.
  unfold wrap, min_signed, modulus. rewrite Z.land_ones by lia.
  pose proof (Z.mod_pos_bound z (2 ^ 32) ltac:(lia)) as Hu.
  assert (Z.testbit z 31 = Z.testbit (z mod 2 ^ 32) 31) as ->.
  { symmetry. apply Z.mod_pow2_bits_low. lia. }
  pose proof (Z.div_mod z (2 ^ 32) ltac:(lia)) as Hz.
  set (u := z mod 2 ^ 32) in *. set (q := z / 2 ^ 32) in *.
  replace (z - - 2 ^ 31) with ((u + 2 ^ 31) + q * 2 ^ 32) by lia.
  rewrite Z.mod_add by lia.
  destruct (Z.testbit u 31) eqn:Hb.
  - apply Z.testbit_true in Hb; [|lia].
    assert (2 ^ 31 <= u).
    { destruct (Z_lt_le_dec u (2 ^ 31)) as [Hlt|]; [|lia].
      rewrite Z.div_small in Hb by lia. discriminate. }
    replace (u + 2 ^ 31) with ((u - 2 ^ 31) + 1 * 2 ^ 32) by lia.
    rewrite Z.mod_add by lia. rewrite Z.mod_small; lia.
  - assert (u < 2 ^ 31).
    { destruct (Z_lt_le_dec u (2 ^ 31)) as [|Hge]; [lia|].
      assert (Z.testbit u 31 = true); [|congruence].
      apply Z.testbit_true; [lia|].
      assert (u / 2 ^ 31 = 1) as ->; [|reflexivity].
      symmetry. apply Z.div_unique with (r := u - 2 ^ 31); lia. }
    rewrite Z.mod_small; lia.
Qed.

Lemma add_comm a b : add a b = add b a.
Proof. unfold add. f_equal. lia. Qed.

Lemma add_0_r a : in_range a -> add a 0 = a.
Proof. intros Ha. unfold add. rewrite Z.add_0_r. by apply wrap_id. Qed.

Lemma ToInt32_js_int32 z : in_range z -> ToInt32 (NumFinite (inject_Z z)) = z.
Proof. intros Hz. cbn. rewrite Z.quot_1_r. by apply wrap_id. Qed.

End Int32Facts.

(** ** addNumbers *)

Section addNumbers_facts.

(** The whole function in one equation: the environment is returned as it
    was received, and the result is always a boxed number. *)
Lemma addNumbers_eq fr info env :
  addNumbers fr info env =
  (Some (js_int32 (Int32.add (operand (cb_args info !! 0%nat) (slot_a fr))
                             (operand (cb_args info !! 1%nat) (slot_b fr)))),
   env).
Proof.
  destruct info as [args this]. cbn [cb_args].
  destruct args as [|x [|y rest]]; [reflexivity| |].
  - destruct x; reflexivity.
  - destruct x, y; reflexivity.
Qed.

Lemma addNumbers_int32_args fr info env a b rest :
  Int32.in_range a -> Int32.in_range b ->
  cb_args info = js_int32 a :: js_int32 b :: rest ->
  addNumbers fr info env = (Some (js_int32 (Int32.add a b)), env).
Proof.
  intros Ha Hb Hargs. rewrite addNumbers_eq, Hargs. cbn [lookup list_lookup operand js_int32].
  by rewrite !Int32Facts.ToInt32_js_int32.
Qed.

End addNumbers_facts.

Section addNumbers_claims.

Variables (fr : addNumbers_frame) (env : napi_env) (this : js_value).

(** C1. Called with two arguments that are 32-bit signed integers [a] and
    [b], [addNumbers] returns the boxed 32-bit integer [r] that is
    [a + b] under two's-complement wraparound: [r] is the low 32 bits of
    [a + b] with bit 31 read as the sign; it is in the 32-bit range and
    congruent to [a + b] modulo 2^32, so it is [a + b] itself when that
    fits, [a + b - 2^32] on overflow and [a + b + 2^32] on underflow.
    Nothing is checked or thrown: the environment comes back unchanged. *)
Theorem addNumbers_wrapping_sum (a b : Z) :
  Int32.in_range a -> Int32.in_range b ->
  exists r,
    addNumbers fr (call_with [a; b] this) env = (Some (js_int32 r), env) /\
    r = Z.land (a + b) (Z.ones 32) -
        (if Z.testbit (a + b) 31 then 2 ^ 32 else 0) /\
    Int32.in_range r /\
    r mod 2 ^ 32 = (a + b) mod 2 ^ 32 /\
    (Int32.in_range (a + b) -> r = a + b) /\
    (Int32.max_signed < a + b -> r = a + b - 2 ^ 32) /\
    (a + b < Int32.min_signed -> r = a + b + 2 ^ 32).
Proof.
  intros Ha Hb. exists (Int32.add a b). split.
  { by apply addNumbers_int32_args with (rest := []). }
  unfold Int32.add. split; [apply Int32Facts.wrap_twos_complement|].
  split; [apply Int32Facts.wrap_in_range|].
  split; [apply Int32Facts.wrap_congruent|].
  unfold Int32.in_range, Int32.min_signed, Int32.max_signed in Ha, Hb.
  split; [apply Int32Facts.wrap_id|]. split; intros Hsum.
  - apply Int32Facts.wrap_above.
    unfold Int32.max_signed, Int32.modulus in *. lia.
  - apply Int32Facts.wrap_below.
    unfold Int32.min_signed, Int32.modulus in *. lia.
Qed.

(** C4. [addNumbers(2147483647, 1)] returns [-2147483648]: the sum wraps
    at the signed 32-bit boundary and no error is raised. *)
Theorem addNumbers_max_plus_one :
  addNumbers fr (call_with [2147483647; 1] this) env =
  (Some (js_int32 (-2147483648)), env).
Proof. by rewrite addNumbers_eq. Qed.

(** C6. For 32-bit signed integers [a] and [b], [addNumbers(a, b)] equals
    [addNumbers(b, a)]. *)
Theorem addNumbers_comm (a b : Z) :
  Int32.in_range a -> Int32.in_range b ->
  addNumbers fr (call_with [a; b] this) env =
  addNumbers fr (call_with [b; a] this) env.
Proof.
  intros Ha Hb.
  rewrite (addNumbers_int32_args _ _ _ a b []) by done.
  rewrite (addNumbers_int32_args _ _ _ b a []) by done.
  by rewrite Int32Facts.add_comm.
Qed.

(** C7. For a 32-bit signed integer [a], [addNumbers(a, 0)] is [a]. *)
Theorem addNumbers_zero_r (a : Z) :
  Int32.in_range a ->
  addNumbers fr (call_with [a; 0] this) env = (Some (js_int32 a), env).
Proof.
  intros Ha.
  rewrite (addNumbers_int32_args _ _ _ a 0 []); [|done|by compute|done].
  by rewrite Int32Facts.add_0_r.
Qed.

End addNumbers_claims.

Section addNumbers_independence.

Variables (fr1 fr2 : addNumbers_frame) (env1 env2 : napi_env).
Variables (this1 this2 : js_value).

(** C8. [addNumbers] is pure, stateless and deterministic: two calls
    given the same pair of 32-bit integers return the same value,
    whatever the environment, the receiver and the previous stack
    content of each call are, and each call hands its environment back
    exactly as it received it, so nothing one call does can reach
    another. *)
Theorem addNumbers_pure (a b : Z) :
  Int32.in_range a -> Int32.in_range b ->
  (addNumbers fr1 (call_with [a; b] this1) env1).1 =
  (addNumbers fr2 (call_with [a; b] this2) env2).1 /\
  (addNumbers fr1 (call_with [a; b] this1) env1).2 = env1 /\
  (addNumbers fr2 (call_with [a; b] this2) env2).2 = env2 /\
  (addNumbers fr2 (call_with [a; b] this2)
     (addNumbers fr1 (call_with [a; b] this1) env1).2).1 =
  (addNumbers fr1 (call_with [a; b] this1) env1).1.
Proof.
  intros Ha Hb.
  by rewrite !(addNumbers_int32_args _ _ _ a b []).
Qed.

(** C10. The result of [addNumbers] depends only on the first two
    arguments: two calls whose first two arguments are the same 32-bit
    integers return the same value, whatever further arguments each call
    carries; only two argument slots are requested from the host, and
    the value is the one of the two-argument call. *)
Theorem addNumbers_ignores_extra_arguments (a b : Z) (extra1 extra2 : list js_value) :
  Int32.in_range a -> Int32.in_range b ->
  (addNumbers fr1 (mk_callback_info (js_int32 a :: js_int32 b :: extra1) this1) env1).1 =
  (addNumbers fr2 (mk_callback_info (js_int32 a :: js_int32 b :: extra2) this2) env2).1 /\
  (addNumbers fr1 (mk_callback_info (js_int32 a :: js_int32 b :: extra1) this1) env1).1 =
  (addNumbers fr1 (call_with [a; b] this1) env1).1.
Proof.
  intros Ha Hb.
  rewrite (addNumbers_int32_args _ _ _ a b extra1) by done.
  rewrite (addNumbers_int32_args _ _ _ a b extra2) by done.
  by rewrite (addNumbers_int32_args _ _ _ a b []).
Qed.

End addNumbers_independence.

(** C3. With fewer than two arguments [addNumbers] raises nothing.  The
    missing argument reads as [undefined], the conversion refuses it
    without writing the operand, and the status is dropped, so the sum is
    taken with whatever the operand's stack slot held: no exception is
    pending afterwards, a number is returned, and two calls with the same
    single argument return different numbers when their stacks differ. *)
Theorem addNumbers_missing_arguments :
  (forall fr this env,
     addNumbers fr (call_with [] this) env =
     (Some (js_int32 (Int32.add (slot_a fr) (slot_b fr))), env)) /\
  (forall fr this env n,
     addNumbers fr (mk_callback_info [JSNumber n] this) env =
     (Some (js_int32 (Int32.add (ToInt32 n) (slot_b fr))), env)) /\
  addNumbers (mk_addNumbers_frame (nullptr, nullptr) 0 0 nullptr)
             (call_with [5] JSUndefined) (mk_napi_env ∅ None true) =
  (Some (js_int32 5), mk_napi_env ∅ None true) /\
  addNumbers (mk_addNumbers_frame (nullptr, nullptr) 0 37 nullptr)
             (call_with [5] JSUndefined) (mk_napi_env ∅ None true) =
  (Some (js_int32 42), mk_napi_env ∅ None true).
Proof.
  repeat split; intros; by rewrite addNumbers_eq.
Qed.

(** ** Registration *)

Section registration_facts.

Lemma exception_pending_true env :
  exception_pending env = true <-> is_Some (last_exception env).
Proof.
  unfold exception_pending. destruct (last_exception env); split;
    intros H; try done; first [by eexists | by destruct H].
Qed.

Lemma exception_pending_false env :
  exception_pending env = false <-> last_exception env = None.
Proof. unfold exception_pending. by destruct (last_exception env). Qed.

Lemma creation_cases slot env : creation_outcome slot env (creation slot env).
Proof.
  unfold creation, napi_create_function.
  destruct (exception_pending env) eqn:Hp.
  { constructor. by apply exception_pending_true. }
  apply exception_pending_false in Hp.
  destruct (can_create_function env) eqn:Hc; cbn [negb].
  - rewrite Hp. eapply creation_done; try done.
    apply not_elem_of_dom, is_fresh.
  - by constructor.
Qed.

(** The status of a creation does not depend on what the result slot held,
    and a creation that succeeds overwrites the slot. *)
Lemma creation_slot slot env :
  (creation slot env).1.1 = creation_status env /\
  (creation_status env = napi_ok -> creation slot env = creation nullptr env) /\
  (creation_status env <> napi_ok ->
   creation slot env = (creation_status env, slot, env)).
Proof.
  unfold creation_status.
  destruct (creation_cases slot env) as [Hs|Hs Hc|f Hs Hc Hf Hn];
    destruct (creation_cases nullptr env) as [Hs'|Hs' Hc'|f' Hs' Hc' Hf' Hn'];
    cbn [fst snd]; try congruence;
    try (rewrite Hs in Hs'; by destruct Hs');
    try (rewrite Hs' in Hs; by destruct Hs).
  all: subst; repeat split; intros; congruence.
Qed.

(** *** Stores *)

Lemma lookup_chain_end depth h name : lookup_chain depth h None name = None.
Proof. by destruct depth. Qed.

(** A newly created function object shows nothing on any prototype
    chain. *)
Lemma lookup_chain_insert_function depth h f start name :
  h !! f = None ->
  lookup_chain depth (<[f := addNumbers_function]> h) start name =
  lookup_chain depth h start name.
Proof.
  intros Hf. revert start.
  induction depth as [|depth IH]; intros [l|]; try done.
  cbn [lookup_chain]. destruct (decide (l = f)) as [->|Hne].
  - rewrite lookup_insert_eq, Hf. cbn [addNumbers_function properties prototype].
    rewrite lookup_empty. apply lookup_chain_end.
  - rewrite lookup_insert_ne by done.
    destruct (h !! l) as [o|]; [|done].
    destruct (properties o !! name); [done|]. apply IH.
Qed.

Lemma accepts_store_lands h o name :
  accepts_store h o name -> store_decision h o name = store_lands.
Proof.
  intros (Hext & Hown & Hchain). unfold store_decision.
  destruct (properties o !! name) as [[v [|]|s]|]; try done.
  specialize (Hchain (size h)).
  destruct (lookup_chain (size h) h (prototype o) name) as [[v [|]|s]|];
    try done; by rewrite Hext.
Qed.

Lemma accepts_store_insert_function h f o name :
  h !! f = None -> accepts_store h o name ->
  accepts_store (<[f := addNumbers_function]> h) o name.
Proof.
  intros Hf (Hext & Hown & Hchain). repeat split; [done..|].
  intros depth. by rewrite lookup_chain_insert_function.
Qed.

(** A store of a name the object already holds as a writable data property
    lands, whatever the rest of the heap is. *)
Lemma own_writable_lands h o name v :
  properties o !! name = Some (DataProperty v true) ->
  store_decision h o name = store_lands.
Proof. intros Hown. unfold store_decision. by rewrite Hown. Qed.

(** An attachment that lands, with no exception pending, stores the
    property and touches nothing else. *)
Lemma set_named_property_lands l o name v env :
  last_exception env = None -> heap env !! l = Some o ->
  store_decision (heap env) o name = store_lands ->
  napi_set_named_property (Some (JSObject l)) name (Some v) env =
  (napi_ok,
   mk_napi_env (<[l := with_property o name v]> (heap env))
               (last_exception env) (can_create_function env)).
Proof.
  intros Hp Hl Hst. unfold napi_set_named_property.
  apply exception_pending_false in Hp as ->. by rewrite Hl, Hst.
Qed.

(** An attachment that fails leaves the heap as it was; it either leaves
    the whole environment as it was, or had none pending and raised an
    exception of its own. *)
Lemma set_named_property_failed object name value env :
  (napi_set_named_property object name value env).1 <> napi_ok ->
  napi_set_named_property object name value env =
    ((napi_set_named_property object name value env).1, env) \/
  last_exception env = None /\
  exists e,
    napi_set_named_property object name value env =
    ((napi_set_named_property object name value env).1,
     mk_napi_env (heap env) (Some e) (can_create_function env)).
Proof.
  unfold napi_set_named_property.
  destruct (exception_pending env) eqn:Hp; [by left|].
  apply exception_pending_false in Hp.
  destruct value as [v|]; [|by left].
  destruct object as [[| | | | |l]|]; try done;
    try (by left); try (right; split; [done|]; by eexists).
  destruct (heap env !! l) as [o|]; [|by left].
  destruct (store_decision (heap env) o name) as [| |[|e]]; try done.
  intros _. right. split; [done|]. by eexists.
Qed.

(** Neither the creation nor the attachment ever clear a pending
    exception or change what the engine can create. *)
Lemma set_named_property_flag object name value env :
  can_create_function (napi_set_named_property object name value env).2 =
  can_create_function env.
Proof.
  unfold napi_set_named_property.
  destruct (exception_pending env); [done|].
  destruct value as [v|]; [|done].
  destruct object as [[| | | | |l]|]; try done.
  destruct (heap env !! l) as [o|]; [|done].
  by destruct (store_decision (heap env) o name) as [| |[|e]].
Qed.

Lemma throw_error_pending code msg env :
  is_Some (last_exception env) ->
  napi_throw_error code msg env = (napi_pending_exception, env).
Proof.
  intros Hp. unfold napi_throw_error.
  by apply exception_pending_true in Hp as ->.
Qed.

Lemma throw_error_raised code msg env :
  last_exception env = None ->
  napi_throw_error code msg env =
  (napi_ok,
   mk_napi_env (heap env) (Some (ErrorObject (mk_js_error code msg)))
               (can_create_function env)).
Proof.
  intros Hp. unfold napi_throw_error.
  by apply exception_pending_false in Hp as ->.
Qed.

(** [Init] and [init] as one equation each, over the outcome of the
    creation. *)
Lemma Init_eq slot exports env :
  Init slot exports env =
  let '(status, fn, env1) := creation slot env in
  if decide (status = napi_ok) then
    let '(status2, env2) :=
      napi_set_named_property exports "addNumbers" fn env1 in
    if decide (status2 = napi_ok) then (exports, env2)
    else (nullptr,
          (napi_throw_error None "Failed to set addNumbers property" env2).2)
  else (nullptr,
        (napi_throw_error None "Failed to create addNumbers function" env1).2).
Proof.
  unfold Init, creation, mbind, napi_bind, mret, napi_ret.
  destruct (napi_create_function _ _ _ _ _ env) as [[status fn] env1].
  destruct (decide (status = napi_ok)) as [->|Hst].
  - rewrite decide_False by (by intros ?).
    destruct (napi_set_named_property _ _ _ env1) as [status2 env2].
    destruct (decide (status2 = napi_ok)) as [->|Hst2].
    + by rewrite decide_False by (by intros ?).
    + rewrite decide_True by done. by destruct (napi_throw_error _ _ env2).
  - rewrite decide_True by done. by destruct (napi_throw_error _ _ env1).
Qed.

Lemma init_eq slot exports env :
  init slot exports env =
  let '(_, fn, env1) := creation slot env in
  (exports, (napi_set_named_property exports "addNumbers" fn env1).2).
Proof.
  unfold init, creation, mbind, napi_bind, mret, napi_ret.
  destruct (napi_create_function _ _ _ _ _ env) as [[status fn] env1].
  by destruct (napi_set_named_property _ _ _ env1).
Qed.

(** A failed registration through [Init]: [nullptr] and an exception
    pending, which is the creation's error, the exception the attachment
    raised, or the attachment's error. *)
Lemma Init_failed slot exports env :
  creation_status env <> napi_ok \/ attachment_status exports env <> napi_ok ->
  exists env',
    Init slot exports env = (nullptr, env') /\
    is_Some (last_exception env') /\
    (last_exception env = None -> creation_status env <> napi_ok ->
     last_exception env' =
     Some (ErrorObject
             (mk_js_error None "Failed to create addNumbers function"))) /\
    (creation_status env = napi_ok ->
     last_exception env' =
     match attachment_exception exports env with
     | Some e => Some e
     | None =>
         Some (ErrorObject
                 (mk_js_error None "Failed to set addNumbers property"))
     end).
Proof.
  intros Hfail. rewrite Init_eq.
  destruct (creation_slot slot env) as (_ & Hok & Hko).
  destruct (decide (creation_status env = napi_ok)) as [Hc|Hc].
  - rewrite (Hok Hc). destruct Hfail as [?|Hset]; [done|].
    unfold creation_status, attachment_status, attachment_exception in *.
    destruct (creation_cases nullptr env) as [?|? ?|f Hp _ _ Hf];
      cbn [fst snd] in Hc; try done.
    rewrite decide_True by done.
    destruct (set_named_property_failed _ _ _ _ Hset)
      as [Heq|(_ & e & Heq)]; rewrite Heq; cbn [snd];
      rewrite decide_False by done.
    + eexists; split; [done|]. rewrite throw_error_raised by done. cbn.
      repeat split; [by eexists|done].
    + eexists; split; [done|].
      rewrite throw_error_pending by (by eexists). cbn.
      repeat split; [by eexists|done].
  - rewrite (Hko Hc). rewrite decide_False by done.
    eexists; split; [done|].
    destruct (last_exception env) as [e|] eqn:Hp.
    + rewrite throw_error_pending by (rewrite Hp; by eexists). cbn.
      rewrite Hp. repeat split; [by eexists|done|done].
    + rewrite throw_error_raised by done. cbn.
      repeat split; [by eexists|done].
Qed.

(** A registration through [Init] that goes through. *)
Lemma Init_lands slot (l : loc) (o : js_object) (env : napi_env) :
  last_exception env = None -> can_create_function env = true ->
  heap env !! l = Some o ->
  store_decision (<[fresh (dom (heap env)) := addNumbers_function]> (heap env))
                 o "addNumbers" = store_lands ->
  l <> fresh (dom (heap env)) /\
  Init slot (Some (JSObject l)) env = (Some (JSObject l), registered l o env).
Proof.
  intros Hp Hc Hl Hst.
  assert (heap env !! fresh (dom (heap env)) = None) as Hf
    by apply not_elem_of_dom, is_fresh.
  assert (l <> fresh (dom (heap env))) as Hlf by congruence.
  split; [done|]. rewrite Init_eq.
  destruct (creation_cases slot env) as [[e He] | _ Hc' | f _ _ -> _];
    [congruence|congruence|].
  rewrite decide_True by done.
  rewrite (set_named_property_lands l o); [|done| |done].
  - by rewrite decide_True.
  - cbn [heap]. by rewrite lookup_insert_ne.
Qed.

Lemma Init_succeeds slot (l : loc) (o : js_object) (env : napi_env) :
  last_exception env = None -> can_create_function env = true ->
  heap env !! l = Some o -> accepts_store (heap env) o "addNumbers" ->
  l <> fresh (dom (heap env)) /\
  Init slot (Some (JSObject l)) env = (Some (JSObject l), registered l o env).
Proof.
  intros Hp Hc Hl Hacc. apply Init_lands; try done.
  apply accepts_store_lands, accepts_store_insert_function; [|done].
  apply not_elem_of_dom, is_fresh.
Qed.

Lemma Init_pending slot exports env :
  is_Some (last_exception env) -> Init slot exports env = (nullptr, env).
Proof.
  intros Hp. rewrite Init_eq.
  destruct (creation_cases slot env) as [_|Hn _|f Hn _ _ _];
    [|rewrite Hn in Hp; by destruct Hp..].
  rewrite decide_False by done. by rewrite throw_error_pending.
Qed.

Lemma Init_refused slot exports env :
  last_exception env = None -> can_create_function env = false ->
  Init slot exports env =
  (nullptr,
   mk_napi_env (heap env)
     (Some (ErrorObject
              (mk_js_error None "Failed to create addNumbers function")))
     false).
Proof.
  intros Hp Hc. rewrite Init_eq.
  destruct (creation_cases slot env) as [[e He] | _ _ | f _ Hc' _ _];
    [congruence| |congruence].
  rewrite decide_False by done. rewrite throw_error_raised by done.
  cbn. by rewrite Hc.
Qed.

(** The sample exports object accepts the store. *)
Lemma plain_exports_accepts_store :
  accepts_store (heap loader_env) plain_exports "addNumbers".
Proof. repeat split. intros [|[|[|depth]]]; reflexivity. Qed.

End registration_facts.

Section registration_claims.

Variables (slot : napi_value) (exports : napi_value) (env : napi_env).

(** C2. Whenever the creation of the [addNumbers] callable fails, or its
    attachment to the exports surface fails, [Init] returns [nullptr], not
    the exports surface, and leaves an exception pending for the host.
    When the creation failed with none pending on entry, it is the [Error]
    "Failed to create addNumbers function".  When the attachment failed, it
    is the exception the attachment itself raised, if it raised one (the
    [TypeError] for an [undefined] or [null] exports, or what a setter
    threw), and otherwise the [Error] "Failed to set addNumbers
    property". *)
Theorem Init_reports_failure :
  creation_status env <> napi_ok \/ attachment_status exports env <> napi_ok ->
  exists env',
    Init slot exports env = (nullptr, env') /\
    is_Some (last_exception env') /\
    (last_exception env = None -> creation_status env <> napi_ok ->
     last_exception env' =
     Some (ErrorObject
             (mk_js_error None "Failed to create addNumbers function"))) /\
    (creation_status env = napi_ok ->
     last_exception env' =
     match attachment_exception exports env with
     | Some e => Some e
     | None =>
         Some (ErrorObject
                 (mk_js_error None "Failed to set addNumbers property"))
     end).
Proof. apply Init_failed. Qed.

End registration_claims.

(** C5.  A successful run of [Init] on an exports object that
    accepts the store (it is extensible, and [addNumbers] is not a
    read-only or accessor property of it or of its prototype chain)
    returns that same object.  Afterwards the object has the property
    [addNumbers], holding a function object created by this run that
    wraps the native [addNumbers] and that the host can call; every other
    property of the object is as before and its set of property names
    grew by [addNumbers] only; its prototype and extensibility are as
    before; every other object of the heap is as before; the
    pending-exception state and the rest of the environment are
    unchanged. *)
Theorem Init_augments_exports
    (slot : napi_value) (l : loc) (o : js_object) (env env' : napi_env)
    (r : napi_value) :
  heap env !! l = Some o ->
  accepts_store (heap env) o "addNumbers" ->
  Init slot (Some (JSObject l)) env = (r, env') ->
  r <> nullptr ->
  r = Some (JSObject l) /\
  exists f o',
    heap env !! f = None /\
    heap env' !! f = Some addNumbers_function /\
    heap env' !! l = Some o' /\
    properties o' !! "addNumbers" = Some (DataProperty (JSObject f) true) /\
    (forall k, k <> "addNumbers" -> properties o' !! k = properties o !! k) /\
    dom (properties o') = {["addNumbers"]} ∪ dom (properties o) /\
    prototype o' = prototype o /\
    extensible o' = extensible o /\
    native_code o' = native_code o /\
    native_data o' = native_data o /\
    (forall l', l' <> l -> l' <> f -> heap env' !! l' = heap env !! l') /\
    last_exception env' = last_exception env /\
    can_create_function env' = can_create_function env /\
    (forall fr args,
       call_method fr (JSObject l) "addNumbers" args env' =
       (Some (addNumbers fr (mk_callback_info args (JSObject l)) env').1,
        env')).
Proof.
  intros Hl Hacc HInit Hr.
  destruct (last_exception env) as [e|] eqn:Hp.
  { rewrite Init_pending in HInit by (rewrite Hp; by eexists). congruence. }
  destruct (can_create_function env) eqn:Hc;
    [|rewrite Init_refused in HInit by done; congruence].
  destruct (Init_succeeds slot l o env Hp Hc Hl Hacc) as [Hlf HInit'].
  rewrite HInit' in HInit. injection HInit as <- <-. split; [done|].
  exists (fresh (dom (heap env))), (with_property o "addNumbers"
                                      (JSObject (fresh (dom (heap env))))).
  unfold registered. cbn [heap last_exception can_create_function].
  split; [apply not_elem_of_dom, is_fresh|]. split.
  { rewrite lookup_insert_ne by done. by rewrite lookup_insert_eq. }
  split; [by rewrite lookup_insert_eq|].
  cbn [with_property properties prototype extensible native_code native_data].
  split; [by rewrite lookup_insert_eq|].
  split; [by intros k Hk; rewrite lookup_insert_ne|].
  split; [by rewrite dom_insert_L|].
  do 4 (split; [done|]).
  split; [by intros l' ? ?; rewrite !lookup_insert_ne|].
  do 2 (split; [done|]).
  intros fr args. unfold call_method. cbn [heap lookup_chain].
  rewrite lookup_insert_eq. cbn [with_property properties].
  rewrite lookup_insert_eq.
  rewrite lookup_insert_ne by done. rewrite lookup_insert_eq.
  cbn [mbind option_bind native_code addNumbers_function run_callback].
  by rewrite addNumbers_eq.
Qed.


(** ** The claims at concrete inputs *)

Lemma addNumbers_wrapping_sum_witness :
  Int32.in_range 2000000000 /\ Int32.in_range 2000000000 /\
  exists r,
    addNumbers stale_frame (call_with [2000000000; 2000000000] JSNull)
               loader_env = (Some (js_int32 r), loader_env) /\
    r = 2000000000 + 2000000000 - 2 ^ 32.
Proof.
  assert (Int32.in_range 2000000000) as H.
  { unfold Int32.in_range, Int32.min_signed, Int32.max_signed. lia. }
  split; [exact H|]. split; [exact H|].
  destruct (addNumbers_wrapping_sum stale_frame loader_env JSNull _ _ H H)
    as (r & Hcall & _ & _ & _ & _ & Hover & _).
  exists r. split; [exact Hcall|].
  apply Hover. unfold Int32.max_signed. lia.
Defined.

Lemma addNumbers_comm_witness :
  Int32.in_range 3 /\ Int32.in_range (-5) /\
  addNumbers zero_frame (call_with [3; -5] JSUndefined) loader_env =
  addNumbers zero_frame (call_with [-5; 3] JSUndefined) loader_env.
Proof.
  assert (Int32.in_range 3) as H3.
  { unfold Int32.in_range, Int32.min_signed, Int32.max_signed. lia. }
  assert (Int32.in_range (-5)) as H5.
  { unfold Int32.in_range, Int32.min_signed, Int32.max_signed. lia. }
  split; [exact H3|]. split; [exact H5|].
  exact (addNumbers_comm zero_frame loader_env JSUndefined _ _ H3 H5).
Defined.

Lemma addNumbers_zero_r_witness :
  Int32.in_range (-2147483648) /\
  addNumbers stale_frame (call_with [-2147483648; 0] JSUndefined) loader_env =
  (Some (js_int32 (-2147483648)), loader_env).
Proof.
  assert (Int32.in_range (-2147483648)) as H.
  { unfold Int32.in_range, Int32.min_signed, Int32.max_signed. lia. }
  split; [exact H|].
  exact (addNumbers_zero_r stale_frame loader_env JSUndefined _ H).
Defined.

Lemma addNumbers_pure_witness :
  Int32.in_range 40 /\ Int32.in_range 2 /\
  (addNumbers zero_frame (call_with [40; 2] JSUndefined) loader_env).1 =
  (addNumbers stale_frame (call_with [40; 2] JSNull) exhausted_env).1.
Proof.
  assert (Int32.in_range 40) as H40.
  { unfold Int32.in_range, Int32.min_signed, Int32.max_signed. lia. }
  assert (Int32.in_range 2) as H2.
  { unfold Int32.in_range, Int32.min_signed, Int32.max_signed. lia. }
  split; [exact H40|]. split; [exact H2|].
  exact (proj1 (addNumbers_pure zero_frame stale_frame loader_env
                  exhausted_env JSUndefined JSNull _ _ H40 H2)).
Defined.

Lemma addNumbers_ignores_extra_arguments_witness :
  Int32.in_range 40 /\ Int32.in_range 2 /\
  (addNumbers zero_frame
     (mk_callback_info [js_int32 40; js_int32 2; JSString "x"; js_int32 9]
                       JSUndefined) loader_env).1 =
  (addNumbers stale_frame
     (mk_callback_info [js_int32 40; js_int32 2] JSNull) exhausted_env).1.
Proof.
  assert (Int32.in_range 40) as H40.
  { unfold Int32.in_range, Int32.min_signed, Int32.max_signed. lia. }
  assert (Int32.in_range 2) as H2.
  { unfold Int32.in_range, Int32.min_signed, Int32.max_signed. lia. }
  split; [exact H40|]. split; [exact H2|].
  exact (proj1 (addNumbers_ignores_extra_arguments zero_frame stale_frame
                  loader_env exhausted_env JSUndefined JSNull 40 2
                  [JSString "x"; js_int32 9] [] H40 H2)).
Defined.

Lemma Init_reports_failure_witness :
  (creation_status loader_env <> napi_ok \/
   attachment_status (Some JSUndefined) loader_env <> napi_ok) /\
  exists env',
    Init nullptr (Some JSUndefined) loader_env = (nullptr, env') /\
    last_exception env' = Some not_an_object.
Proof.
  assert (creation_status loader_env <> napi_ok \/
          attachment_status (Some JSUndefined) loader_env <> napi_ok) as H.
  { right. vm_compute. discriminate. }
  split; [exact H|].
  destruct (Init_reports_failure nullptr (Some JSUndefined) loader_env H)
    as (env' & HInit & _ & _ & Hexc).
  exists env'. split; [exact HInit|]. exact (Hexc eq_refl).
Defined.

(** C5 does not extend to a frozen exports object: there the run is
    successful and the same object is returned, but the store is swallowed
    and the object has no [addNumbers] property. *)
Lemma Init_frozen_exports_counterexample :
  heap frozen_env !! module_exports = Some frozen_exports /\
  Init nullptr (Some (JSObject module_exports)) frozen_env =
  (Some (JSObject module_exports),
   mk_napi_env
     (<[3%positive := addNumbers_function]> (heap frozen_env)) None true) /\
  (<[3%positive := addNumbers_function]> (heap frozen_env)) !! module_exports
  = Some frozen_exports /\
  properties frozen_exports !! "addNumbers" = None.
Proof. repeat split; vm_compute; reflexivity. Qed.

Lemma Init_augments_exports_witness :
  heap loader_env !! module_exports = Some plain_exports /\
  accepts_store (heap loader_env) plain_exports "addNumbers" /\
  (Init nullptr (Some (JSObject module_exports)) loader_env).1 <> nullptr /\
  (Init nullptr (Some (JSObject module_exports)) loader_env).1 =
  Some (JSObject module_exports).
Proof.
  assert (heap loader_env !! module_exports = Some plain_exports)
    as Hl by reflexivity.
  assert ((Init nullptr (Some (JSObject module_exports)) loader_env).1
          <> nullptr) as Hr.
  { vm_compute. discriminate. }
  split; [exact Hl|]. split; [exact plain_exports_accepts_store|].
  split; [exact Hr|].
  exact (proj1 (Init_augments_exports nullptr module_exports _ loader_env _ _
                  Hl plain_exports_accepts_store (surjective_pairing _) Hr)).
Defined.


(** * Further properties of the sources *)

(** ** More 32-bit arithmetic *)

Module Int32More.
Import Int32.

Lemma wrap_congruence x y : x mod modulus = y mod modulus -> wrap x = wrap y.
Proof.
  intros Hxy. unfold wrap. f_equal.
  rewrite <- (Zminus_mod_idemp_l x), <- (Zminus_mod_idemp_l y).
  by rewrite Hxy.
Qed.

Lemma wrap_add_wrap a b : wrap (wrap a + wrap b) = wrap (a + b).
Proof.
  apply wrap_congruence.
  rewrite Zplus_mod, !Int32Facts.wrap_congruent. by rewrite <- Zplus_mod.
Qed.

Lemma add_wrap_l a b : add (wrap a) b = wrap (a + b).
Proof.
  unfold add. apply wrap_congruence.
  rewrite Zplus_mod, Int32Facts.wrap_congruent. by rewrite <- Zplus_mod.
Qed.

Lemma add_wrap_r a b : add a (wrap b) = wrap (a + b).
Proof. rewrite Int32Facts.add_comm, add_wrap_l. f_equal. lia. Qed.

Lemma truncates_to_quot q t :
  truncates_to q t <-> t = Z.quot (Qnum q) (Z.pos (Qden q)).
Proof.
  destruct q as [n d]. unfold truncates_to, Qle, Qlt. cbn [Qnum Qden inject_Z].
  rewrite !Z.mul_1_r, !Z.mul_0_l.
  assert (0 <= n -> 0 <= Z.rem n (Z.pos d) < Z.pos d) as Hpos.
  { intros. apply Z.rem_bound_pos; lia. }
  assert (n <= 0 -> - Z.pos d < Z.rem n (Z.pos d) <= 0) as Hneg.
  { intros Hn. destruct (Z.eq_dec n 0) as [->|Hn0].
    - rewrite Z.rem_0_l; lia.
    - pose proof (Z.rem_bound_pos (- n) (Z.pos d) ltac:(lia) ltac:(lia)) as Hb.
      rewrite Z.rem_opp_l' in Hb. lia. }
  pose proof (Z.quot_rem' n (Z.pos d)) as Hqr.
  set (k := Z.quot n (Z.pos d)) in *. set (r := Z.rem n (Z.pos d)) in *.
  split.
  - intros [H1 H2]. destruct (Z_le_gt_dec 0 n) as [Hn|Hn].
    + specialize (H1 Hn). specialize (Hpos Hn). nia.
    + assert (n <= 0) as Hn' by lia.
      specialize (H2 Hn'). specialize (Hneg Hn'). nia.
  - intros ->. split; intros Hn.
    + specialize (Hpos Hn). nia.
    + specialize (Hneg Hn). nia.
Qed.

Lemma ToInt32_finite q t : truncates_to q t -> ToInt32 (NumFinite q) = wrap t.
Proof. intros Ht. apply truncates_to_quot in Ht as ->. done. Qed.

Lemma ToInt32_integer z : ToInt32 (NumFinite (inject_Z z)) = wrap z.
Proof. cbn. by rewrite Z.quot_1_r. Qed.

End Int32More.

(** ** addNumbers on arbitrary arguments *)

(** Two finite numbers: each is truncated and reduced to 32 bits, and the
    reductions do not show in the sum. *)
Lemma addNumbers_finite_args fr this env q1 q2 t1 t2 rest :
  truncates_to q1 t1 -> truncates_to q2 t2 ->
  addNumbers fr
    (mk_callback_info
       (JSNumber (NumFinite q1) :: JSNumber (NumFinite q2) :: rest) this) env =
  (Some (js_int32 (Int32.wrap (t1 + t2))), env).
Proof.
  intros H1 H2. rewrite addNumbers_eq. cbn [cb_args lookup list_lookup operand].
  rewrite (Int32More.ToInt32_finite _ _ H1), (Int32More.ToInt32_finite _ _ H2).
  unfold Int32.add. by rewrite Int32More.wrap_add_wrap.
Qed.

Lemma call_with_pair a b this :
  call_with [a; b] this = mk_callback_info [js_int32 a; js_int32 b] this.
Proof. reflexivity. Qed.

Lemma addNumbers_integer_args fr this env a b :
  addNumbers fr (mk_callback_info [js_int32 a; js_int32 b] this) env =
  (Some (js_int32 (Int32.wrap (a + b))), env).
Proof.
  rewrite addNumbers_eq. cbn [cb_args lookup list_lookup operand js_int32].
  rewrite !Int32More.ToInt32_integer.
  unfold Int32.add. by rewrite Int32More.wrap_add_wrap.
Qed.

Section addNumbers_extras.

Variables (fr : addNumbers_frame) (env : napi_env) (this : js_value).

(** X1. Finite numbers with a fraction are truncated towards zero, not
    rounded: for finite [q1] and [q2] whose truncations are [t1] and [t2],
    [addNumbers(q1, q2)] is the boxed wrapped sum of [t1] and [t2]. *)
Theorem addNumbers_truncates_fractions (q1 q2 : Q) (t1 t2 : Z) :
  truncates_to q1 t1 -> truncates_to q2 t2 ->
  addNumbers fr
    (mk_callback_info [JSNumber (NumFinite q1); JSNumber (NumFinite q2)] this)
    env =
  (Some (js_int32 (Int32.wrap (t1 + t2))), env).
Proof. apply addNumbers_finite_args. Qed.

(** X2. Integers of any size are accepted: an argument outside the 32-bit
    range is neither refused nor saturated but reduced modulo 2^32, and the
    result is the wrapped sum of the unreduced integers. *)
Theorem addNumbers_reduces_large_integers (a b : Z) :
  addNumbers fr (call_with [a; b] this) env =
  (Some (js_int32 (Int32.wrap (a + b))), env) /\
  (addNumbers fr (call_with [a + 2 ^ 32; b] this) env).1 =
  (addNumbers fr (call_with [a; b] this) env).1.
Proof.
  rewrite !call_with_pair, !addNumbers_integer_args. split; [done|]. cbn [fst].
  do 2 f_equal. apply Int32More.wrap_congruence.
  replace (a + 2 ^ 32 + b) with (a + b + 1 * Int32.modulus)
    by (unfold Int32.modulus; lia).
  apply Z.mod_add. by unfold Int32.modulus.
Qed.

(** X3. Whatever it is called with - any number of arguments of any
    kind, any stack content, any environment - [addNumbers] returns a
    non-null handle to a number that is a 32-bit integer, and hands the
    environment back unchanged: it never returns [nullptr], never throws
    and never touches the heap. *)
Theorem addNumbers_always_returns_int32 (info : napi_callback_info) :
  exists r,
    addNumbers fr info env = (Some (js_int32 r), env) /\
    Int32.in_range r.
Proof.
  eexists. split; [apply addNumbers_eq|]. apply Int32Facts.wrap_in_range.
Qed.

(** X4. Chained calls associate: feeding the result of [addNumbers(a, b)]
    back in with [c] gives the same as feeding [a] with the result of
    [addNumbers(b, c)], also when an intermediate sum wrapped. *)
Theorem addNumbers_assoc (a b c : Z) :
  exists ab bc,
    (addNumbers fr (call_with [a; b] this) env).1 = Some ab /\
    (addNumbers fr (call_with [b; c] this) env).1 = Some bc /\
    addNumbers fr (mk_callback_info [ab; js_int32 c] this) env =
    addNumbers fr (mk_callback_info [js_int32 a; bc] this) env.
Proof.
  exists (js_int32 (Int32.wrap (a + b))), (js_int32 (Int32.wrap (b + c))).
  rewrite !call_with_pair, !addNumbers_integer_args.
  do 2 (split; [done|]). do 3 f_equal. apply Int32More.wrap_congruence.
  rewrite (Zplus_mod (Int32.wrap _)), (Zplus_mod a (Int32.wrap _)).
  rewrite !Int32Facts.wrap_congruent, <- !Zplus_mod. f_equal. lia.
Qed.

(** X5. Adding [b] and then [-b] gives back the 32-bit integer [a] the
    chain started from, even when the first sum overflowed. *)
Theorem addNumbers_add_then_subtract (a b : Z) :
  Int32.in_range a ->
  exists ab,
    (addNumbers fr (call_with [a; b] this) env).1 = Some ab /\
    addNumbers fr (mk_callback_info [ab; js_int32 (- b)] this) env =
    (Some (js_int32 a), env).
Proof.
  intros Ha. exists (js_int32 (Int32.wrap (a + b))).
  rewrite call_with_pair, !addNumbers_integer_args. split; [done|].
  do 3 f_equal.
  rewrite <- (Int32Facts.wrap_id a Ha) at 2.
  apply Int32More.wrap_congruence.
  rewrite Zplus_mod, Int32Facts.wrap_congruent, <- Zplus_mod. f_equal. lia.
Qed.

(** X6. For 32-bit integers [a] and [b] the returned value differs from
    the mathematical sum exactly when both arguments have the same sign and
    the result has the other one. *)
Theorem addNumbers_overflow_by_signs (a b : Z) :
  Int32.in_range a -> Int32.in_range b ->
  exists r,
    addNumbers fr (call_with [a; b] this) env = (Some (js_int32 r), env) /\
    (r <> a + b <->
     (0 <= a /\ 0 <= b /\ r < 0) \/ (a < 0 /\ b < 0 /\ 0 <= r)).
Proof.
  intros Ha Hb. exists (Int32.wrap (a + b)).
  split; [by rewrite call_with_pair, addNumbers_integer_args|].
  unfold Int32.in_range, Int32.min_signed, Int32.max_signed in Ha, Hb.
  destruct (Z_lt_le_dec Int32.max_signed (a + b)) as [Hhi|Hhi];
    [|destruct (Z_lt_le_dec (a + b) Int32.min_signed) as [Hlo|Hlo]].
  - rewrite Int32Facts.wrap_above;
      unfold Int32.max_signed, Int32.modulus in *; lia.
  - rewrite Int32Facts.wrap_below;
      unfold Int32.min_signed, Int32.modulus in *; lia.
  - rewrite Int32Facts.wrap_id; [lia|]. by split.
Qed.

(** X7. NaN and the infinities count as zero: with one of them as an
    argument and a 32-bit integer [b] as the other, the result is [b]. *)
Theorem addNumbers_non_finite_is_zero (n : js_number) (b : Z) :
  (n = NumNaN \/ exists negative, n = NumInfinity negative) ->
  Int32.in_range b ->
  addNumbers fr (mk_callback_info [JSNumber n; js_int32 b] this) env =
  (Some (js_int32 b), env) /\
  addNumbers fr (mk_callback_info [js_int32 b; JSNumber n] this) env =
  (Some (js_int32 b), env).
Proof.
  intros Hn Hb. rewrite !addNumbers_eq.
  cbn [cb_args lookup list_lookup operand js_int32].
  rewrite Int32Facts.ToInt32_js_int32 by done.
  assert (ToInt32 n = 0) as -> by (destruct Hn as [->|[s ->]]; done).
  unfold Int32.add. rewrite Z.add_0_l, Z.add_0_r.
  by rewrite Int32Facts.wrap_id.
Qed.

(** X8. Arguments are not coerced: a first argument that is not a number
    (a string, a boolean, [null], an object, [undefined]) is refused by the
    conversion, nothing is raised, and the first operand is what its stack
    slot held on entry. *)
Theorem addNumbers_does_not_coerce (v : js_value) (b : Z) :
  is_number v = false -> Int32.in_range b ->
  addNumbers fr (mk_callback_info [v; js_int32 b] this) env =
  (Some (js_int32 (Int32.add (slot_a fr) b)), env).
Proof.
  intros Hv Hb. rewrite addNumbers_eq.
  cbn [cb_args lookup list_lookup operand js_int32].
  rewrite Int32Facts.ToInt32_js_int32 by done.
  by destruct v.
Qed.

End addNumbers_extras.

(** ** Registration on arbitrary environments *)

Section registration_extras.

Variables (slot : napi_value) (l : loc) (o : js_object) (env : napi_env).

(** X9. Load then call: after [Init] has run on an exports object that
    accepts the store, in an environment with no exception pending and
    able to create functions, the host calling [exports.addNumbers(a, b)]
    gets the boxed wrapped sum of [a] and [b], and the call leaves the
    environment as [Init] left it. *)
Theorem Init_then_call_adds (a b : Z) :
  last_exception env = None -> can_create_function env = true ->
  heap env !! l = Some o -> accepts_store (heap env) o "addNumbers" ->
  exists env',
    Init slot (Some (JSObject l)) env = (Some (JSObject l), env') /\
    forall fr,
      call_method fr (JSObject l) "addNumbers" [js_int32 a; js_int32 b] env' =
      (Some (Some (js_int32 (Int32.wrap (a + b)))), env').
Proof.
  intros Hp Hc Hl Hacc.
  destruct (Init_succeeds slot l o env Hp Hc Hl Hacc) as [Hlf HInit].
  eexists. split; [exact HInit|].
  intros fr. unfold call_method, registered. cbn [heap lookup_chain].
  rewrite lookup_insert_eq. cbn [with_property properties].
  rewrite lookup_insert_eq.
  rewrite lookup_insert_ne by done. rewrite lookup_insert_eq.
  cbn [mbind option_bind native_code addNumbers_function run_callback].
  by rewrite addNumbers_integer_args.
Qed.

(** X10. On an exports object that accepts the store, [Init] succeeds
    exactly when no exception is pending and the engine can create the
    function; in every other case it returns [nullptr]. *)
Theorem Init_succeeds_iff :
  heap env !! l = Some o -> accepts_store (heap env) o "addNumbers" ->
  ((Init slot (Some (JSObject l)) env).1 = Some (JSObject l) <->
   last_exception env = None /\ can_create_function env = true) /\
  ((Init slot (Some (JSObject l)) env).1 = nullptr <->
   is_Some (last_exception env) \/ can_create_function env = false).
Proof.
  intros Hl Hacc.
  destruct (last_exception env) as [e|] eqn:Hp.
  - rewrite Init_pending by (rewrite Hp; by eexists). cbn [fst].
    split; split; try done; [by intros [? _]|intros _; left; by eexists].
  - destruct (can_create_function env) eqn:Hc.
    + rewrite (proj2 (Init_succeeds slot l o env Hp Hc Hl Hacc)). cbn [fst].
      split; split; try done. intros [[? ?]|?]; done.
    + rewrite Init_refused by done. cbn [fst].
      split; split; try done; [by intros [_ ?]|by right].
Qed.

(** X11. Running [Init] a second time on the same exports object (one that
    accepts the store) succeeds again and only rebinds [addNumbers]: the
    property then holds a second, distinct function object, the first one
    stays in the heap, and the exports object has the same property names
    and the same other properties as after the first run. *)
Theorem Init_twice (slot2 : napi_value) :
  last_exception env = None -> can_create_function env = true ->
  heap env !! l = Some o -> accepts_store (heap env) o "addNumbers" ->
  exists env1 env2 f1 f2 o1 o2,
    Init slot (Some (JSObject l)) env = (Some (JSObject l), env1) /\
    Init slot2 (Some (JSObject l)) env1 = (Some (JSObject l), env2) /\
    f1 <> f2 /\
    heap env1 !! l = Some o1 /\ heap env2 !! l = Some o2 /\
    properties o1 !! "addNumbers" = Some (DataProperty (JSObject f1) true) /\
    properties o2 !! "addNumbers" = Some (DataProperty (JSObject f2) true) /\
    heap env2 !! f1 = Some addNumbers_function /\
    heap env2 !! f2 = Some addNumbers_function /\
    dom (properties o2) = dom (properties o1) /\
    (forall k, k <> "addNumbers" -> properties o2 !! k = properties o !! k).
Proof.
  intros Hp Hc Hl Hacc.
  destruct (Init_succeeds slot l o env Hp Hc Hl Hacc) as [Hlf HInit1].
  set (f1 := fresh (dom (heap env))) in *.
  set (o1 := with_property o "addNumbers" (JSObject f1)).
  set (env1 := registered l o env) in *.
  assert (heap env1 !! l = Some o1) as Hl1 by apply lookup_insert_eq.
  assert (heap env1 !! f1 = Some addNumbers_function) as Hf1.
  { cbn [env1 registered heap]. rewrite lookup_insert_ne by done.
    apply lookup_insert_eq. }
  assert (properties o1 !! "addNumbers" = Some (DataProperty (JSObject f1) true))
    as Hown by apply lookup_insert_eq.
  destruct (Init_lands slot2 l o1 env1 eq_refl eq_refl Hl1
              (own_writable_lands _ _ _ _ Hown)) as [Hlf2 HInit2].
  set (f2 := fresh (dom (heap env1))) in *.
  assert (heap env1 !! f2 = None) as Hf2 by apply not_elem_of_dom, is_fresh.
  assert (f1 <> f2) as Hff by congruence.
  exists env1, (registered l o1 env1), f1, f2, o1,
    (with_property o1 "addNumbers" (JSObject f2)).
  do 2 (split; [done|]). split; [done|]. split; [done|].
  unfold registered at 1 2 3. fold f2. cbn [heap].
  split; [apply lookup_insert_eq|]. split; [done|].
  cbn [with_property properties]. split; [apply lookup_insert_eq|].
  split. { by rewrite !lookup_insert_ne. }
  split. { rewrite lookup_insert_ne by done. apply lookup_insert_eq. }
  split.
  { cbn [o1 with_property properties]. rewrite !dom_insert_L.
    by rewrite (assoc_L (∪)), (idemp_L (∪)). }
  intros k Hk. cbn [o1 with_property properties].
  by rewrite !lookup_insert_ne.
Qed.

End registration_extras.

Section registration_failures.

Variables (slot : napi_value) (exports : napi_value) (env : napi_env).

(** X12. Entered with an exception already pending, [Init] returns
    [nullptr] and leaves the environment exactly as it was: the pending
    exception is not replaced by the "Failed to create" error, and nothing
    is allocated. *)
Theorem Init_keeps_pending_exception :
  is_Some (last_exception env) -> Init slot exports env = (nullptr, env).
Proof. apply Init_pending. Qed.

(** X13. When the attachment is what fails because the exports handle is
    null, [undefined] or [null], in an environment otherwise fit, the
    function object has already been created and is not taken back:
    [Init] returns [nullptr] and the heap has grown by exactly that
    function object.  For a null handle the pending exception is the
    "Failed to set addNumbers property" error; for [undefined] and [null]
    it is the [TypeError] the attachment raised, and [Init]'s own error is
    not thrown. *)
Theorem Init_attachment_failure_state :
  last_exception env = None -> can_create_function env = true ->
  exports = nullptr \/ exports = Some JSUndefined \/ exports = Some JSNull ->
  exists f,
    heap env !! f = None /\
    Init slot exports env =
    (nullptr,
     mk_napi_env (<[f := addNumbers_function]> (heap env))
       (Some (match exports with
              | None =>
                  ErrorObject
                    (mk_js_error None "Failed to set addNumbers property")
              | Some _ => not_an_object
              end)) true).
Proof.
  intros Hp Hc Hex. exists (fresh (dom (heap env))).
  split; [apply not_elem_of_dom, is_fresh|].
  rewrite Init_eq.
  destruct (creation_cases slot env) as [[e He] | _ Hc' | f _ _ -> _];
    [congruence|congruence|].
  rewrite decide_True by done.
  by destruct Hex as [-> | [-> | ->]].
Qed.

(** X15. When the creation fails and either an exception is pending or the
    local [add_numbers_fn] happened to hold a null handle, [init] changes
    nothing at all and still returns the exports handle: the caller gets a
    surface without [addNumbers] and no sign of the failure. *)
Theorem init_fails_silently :
  creation_status env <> napi_ok ->
  is_Some (last_exception env) \/ slot = nullptr ->
  init slot exports env = (exports, env).
Proof.
  intros Hst Hcase. rewrite init_eq.
  destruct (creation_slot slot env) as (_ & _ & Hko). rewrite (Hko Hst).
  cbv beta iota. unfold napi_set_named_property.
  destruct Hcase as [Hp| ->].
  - by apply exception_pending_true in Hp as ->.
  - by destruct (exception_pending env).
Qed.

End registration_failures.

(** X14. On an exports object that accepts the store, [init] of test.cpp
    cannot report a failure: whether or not the function could be created,
    it returns the exports handle it was given, and the pending-exception
    state and the engine flag are afterwards what they were on entry. *)
Theorem init_reports_nothing
    (slot : napi_value) (l : loc) (o : js_object) (env : napi_env) :
  heap env !! l = Some o -> accepts_store (heap env) o "addNumbers" ->
  (init slot (Some (JSObject l)) env).1 = Some (JSObject l) /\
  last_exception (init slot (Some (JSObject l)) env).2 = last_exception env /\
  can_create_function (init slot (Some (JSObject l)) env).2 =
  can_create_function env.
Proof.
  intros Hl Hacc. rewrite init_eq.
  destruct (creation_cases slot env) as [Hp|Hp Hc|f Hp Hc _ Hf];
    cbv beta iota; cbn [fst snd]; (split; [done|]);
    rewrite set_named_property_flag; cbn [can_create_function];
    (split; [|done]).
  - unfold napi_set_named_property.
    by apply exception_pending_true in Hp as ->.
  - destruct slot as [v|].
    + by rewrite (set_named_property_lands l o)
        by (try done; by apply accepts_store_lands).
    + unfold napi_set_named_property. by destruct (exception_pending env).
  - rewrite (set_named_property_lands l o); [by cbn| done | |].
    + cbn [heap]. rewrite lookup_insert_ne; [done|congruence].
    + by apply accepts_store_lands, accepts_store_insert_function.
Qed.

(** X16. When the engine refuses to create the function and no exception
    is pending, [init] goes on to attach whatever handle the uninitialised
    local [add_numbers_fn] held: an exports object that accepts the store
    ends up with [addNumbers] bound to that stale value, not to a
    function. *)
Theorem init_attaches_stale_handle
    (v : js_value) (l : loc) (o : js_object) (env : napi_env) :
  last_exception env = None -> can_create_function env = false ->
  heap env !! l = Some o -> accepts_store (heap env) o "addNumbers" ->
  init (Some v) (Some (JSObject l)) env =
  (Some (JSObject l),
   mk_napi_env (<[l := with_property o "addNumbers" v]> (heap env))
               None false).
Proof.
  intros Hp Hc Hl Hacc. rewrite init_eq.
  destruct (creation_cases (Some v) env) as [[e He] | _ _ | f _ Hc' _ _];
    [congruence| |congruence].
  rewrite (set_named_property_lands l o)
    by (try done; by apply accepts_store_lands).
  cbn. by rewrite Hp, Hc.
Qed.

(** ** The further properties at concrete inputs *)

Lemma addNumbers_truncates_fractions_witness :
  truncates_to (19 # 10) 1 /\ truncates_to (- 29 # 10) (-2) /\
  addNumbers stale_frame
    (mk_callback_info
       [JSNumber (NumFinite (19 # 10)); JSNumber (NumFinite (- 29 # 10))]
       JSUndefined) loader_env =
  (Some (js_int32 (Int32.wrap (1 + -2))), loader_env).
Proof.
  assert (truncates_to (19 # 10) 1) as H1.
  { unfold truncates_to, Qle, Qlt. simpl. lia. }
  assert (truncates_to (- 29 # 10) (-2)) as H2.
  { unfold truncates_to, Qle, Qlt. simpl. lia. }
  split; [exact H1|]. split; [exact H2|].
  exact (addNumbers_truncates_fractions stale_frame loader_env JSUndefined
           _ _ _ _ H1 H2).
Defined.

Lemma addNumbers_add_then_subtract_witness :
  Int32.in_range 2147483647 /\
  exists ab,
    (addNumbers zero_frame (call_with [2147483647; 1] JSUndefined)
                loader_env).1 = Some ab /\
    addNumbers zero_frame (mk_callback_info [ab; js_int32 (- 1)] JSUndefined)
               loader_env = (Some (js_int32 2147483647), loader_env).
Proof.
  assert (Int32.in_range 2147483647) as H.
  { unfold Int32.in_range, Int32.min_signed, Int32.max_signed. lia. }
  split; [exact H|].
  exact (addNumbers_add_then_subtract zero_frame loader_env JSUndefined
           _ 1 H).
Defined.

Lemma addNumbers_overflow_by_signs_witness :
  Int32.in_range 2147483647 /\ Int32.in_range 1 /\
  exists r,
    addNumbers zero_frame (call_with [2147483647; 1] JSUndefined) loader_env =
    (Some (js_int32 r), loader_env) /\
    (r <> 2147483647 + 1 <->
     (0 <= 2147483647 /\ 0 <= 1 /\ r < 0) \/
     (2147483647 < 0 /\ 1 < 0 /\ 0 <= r)).
Proof.
  assert (Int32.in_range 2147483647) as Ha.
  { unfold Int32.in_range, Int32.min_signed, Int32.max_signed. lia. }
  assert (Int32.in_range 1) as Hb.
  { unfold Int32.in_range, Int32.min_signed, Int32.max_signed. lia. }
  split; [exact Ha|]. split; [exact Hb|].
  exact (addNumbers_overflow_by_signs zero_frame loader_env JSUndefined
           _ _ Ha Hb).
Defined.

Lemma addNumbers_non_finite_is_zero_witness :
  (NumNaN = NumNaN \/ exists negative, NumNaN = NumInfinity negative) /\
  Int32.in_range 5 /\
  addNumbers stale_frame
    (mk_callback_info [JSNumber NumNaN; js_int32 5] JSUndefined) loader_env =
  (Some (js_int32 5), loader_env).
Proof.
  assert (NumNaN = NumNaN \/ exists negative, NumNaN = NumInfinity negative)
    as Hn by (left; reflexivity).
  assert (Int32.in_range 5) as Hb.
  { unfold Int32.in_range, Int32.min_signed, Int32.max_signed. lia. }
  split; [exact Hn|]. split; [exact Hb|].
  exact (proj1 (addNumbers_non_finite_is_zero stale_frame loader_env
                  JSUndefined _ _ Hn Hb)).
Defined.

Lemma addNumbers_does_not_coerce_witness :
  is_number (JSString "5") = false /\ Int32.in_range 1 /\
  addNumbers stale_frame
    (mk_callback_info [JSString "5"; js_int32 1] JSUndefined) loader_env =
  (Some (js_int32 (Int32.add (slot_a stale_frame) 1)), loader_env).
Proof.
  assert (Int32.in_range 1) as Hb.
  { unfold Int32.in_range, Int32.min_signed, Int32.max_signed. lia. }
  split; [reflexivity|]. split; [exact Hb|].
  exact (addNumbers_does_not_coerce stale_frame loader_env JSUndefined
           (JSString "5") 1 eq_refl Hb).
Defined.

Lemma Init_then_call_adds_witness :
  last_exception loader_env = None /\
  can_create_function loader_env = true /\
  heap loader_env !! module_exports = Some plain_exports /\
  accepts_store (heap loader_env) plain_exports "addNumbers" /\
  exists env',
    Init nullptr (Some (JSObject module_exports)) loader_env =
    (Some (JSObject module_exports), env') /\
    forall fr,
      call_method fr (JSObject module_exports) "addNumbers"
                  [js_int32 40; js_int32 2] env' =
      (Some (Some (js_int32 (Int32.wrap (40 + 2)))), env').
Proof.
  do 3 (split; [reflexivity|]). split; [exact plain_exports_accepts_store|].
  exact (Init_then_call_adds nullptr module_exports _ loader_env 40 2
           eq_refl eq_refl eq_refl plain_exports_accepts_store).
Defined.

Lemma Init_succeeds_iff_witness :
  heap throwing_env !! module_exports = Some plain_exports /\
  accepts_store (heap throwing_env) plain_exports "addNumbers" /\
  (Init nullptr (Some (JSObject module_exports)) throwing_env).1 = nullptr.
Proof.
  split; [reflexivity|]. split; [exact plain_exports_accepts_store|].
  apply (proj2 (Init_succeeds_iff nullptr module_exports _ throwing_env
                  eq_refl plain_exports_accepts_store)).
  left. vm_compute. eexists. reflexivity.
Defined.

Lemma Init_twice_witness :
  last_exception loader_env = None /\
  can_create_function loader_env = true /\
  heap loader_env !! module_exports = Some plain_exports /\
  accepts_store (heap loader_env) plain_exports "addNumbers" /\
  exists env1 env2,
    Init nullptr (Some (JSObject module_exports)) loader_env =
    (Some (JSObject module_exports), env1) /\
    Init nullptr (Some (JSObject module_exports)) env1 =
    (Some (JSObject module_exports), env2).
Proof.
  do 3 (split; [reflexivity|]). split; [exact plain_exports_accepts_store|].
  destruct (Init_twice nullptr module_exports _ loader_env nullptr
              eq_refl eq_refl eq_refl plain_exports_accepts_store)
    as (env1 & env2 & _ & _ & _ & _ & H1 & H2 & _).
  exists env1, env2. split; [exact H1|exact H2].
Defined.

Lemma Init_keeps_pending_exception_witness :
  is_Some (last_exception throwing_env) /\
  Init nullptr (Some (JSObject module_exports)) throwing_env =
  (nullptr, throwing_env).
Proof.
  assert (is_Some (last_exception throwing_env)) as H.
  { vm_compute. eexists. reflexivity. }
  split; [exact H|].
  exact (Init_keeps_pending_exception nullptr _ throwing_env H).
Defined.

Lemma Init_attachment_failure_state_witness :
  last_exception loader_env = None /\
  can_create_function loader_env = true /\
  exists f,
    heap loader_env !! f = None /\
    Init nullptr (Some JSUndefined) loader_env =
    (nullptr,
     mk_napi_env (<[f := addNumbers_function]> (heap loader_env))
       (Some not_an_object) true).
Proof.
  do 2 (split; [reflexivity|]).
  apply (Init_attachment_failure_state nullptr (Some JSUndefined) loader_env
           eq_refl eq_refl).
  right. left. reflexivity.
Defined.

Lemma init_fails_silently_witness :
  creation_status exhausted_env <> napi_ok /\
  init nullptr (Some (JSObject module_exports)) exhausted_env =
  (Some (JSObject module_exports), exhausted_env).
Proof.
  assert (creation_status exhausted_env <> napi_ok) as H.
  { vm_compute. discriminate. }
  split; [exact H|].
  apply (init_fails_silently nullptr _ exhausted_env H).
  right. reflexivity.
Defined.

Lemma init_reports_nothing_witness :
  heap exhausted_env !! module_exports = Some plain_exports /\
  accepts_store (heap exhausted_env) plain_exports "addNumbers" /\
  (init nullptr (Some (JSObject module_exports)) exhausted_env).1 =
  Some (JSObject module_exports) /\
  last_exception
    (init nullptr (Some (JSObject module_exports)) exhausted_env).2 = None.
Proof.
  split; [reflexivity|]. split; [exact plain_exports_accepts_store|].
  destruct (init_reports_nothing nullptr module_exports _ exhausted_env
              eq_refl plain_exports_accepts_store) as (H1 & H2 & _).
  split; [exact H1|exact H2].
Defined.

Lemma init_attaches_stale_handle_witness :
  last_exception exhausted_env = None /\
  can_create_function exhausted_env = false /\
  heap exhausted_env !! module_exports = Some plain_exports /\
  accepts_store (heap exhausted_env) plain_exports "addNumbers" /\
  init (Some JSNull) (Some (JSObject module_exports)) exhausted_env =
  (Some (JSObject module_exports),
   mk_napi_env
     (<[module_exports := with_property plain_exports "addNumbers" JSNull]>
        (heap exhausted_env)) None false).
Proof.
  do 3 (split; [reflexivity|]). split; [exact plain_exports_accepts_store|].
  exact (init_attaches_stale_handle JSNull module_exports _ exhausted_env
           eq_refl eq_refl eq_refl plain_exports_accepts_store).
Defined.
